(** * BoardConfig.h: LED matrix board configuration

    A shallow embedding of [lib/BoardConfig/BoardConfig.h]: the panel
    macros, the coordinate mapping function [XY], the frame dump
    [sendFrameData] and the [MatrixColors] palette, together with the
    properties the design document states about them.

    Conventions.  C integers are values of [Z].  A conversion to a
    fixed-width unsigned type is written out as a reduction modulo a power
    of two ([to_uint8], [to_uint16]); arithmetic on [int] operands is exact
    arithmetic in [Z] (the values that occur stay far below the range of
    [int] for every panel whose pixel count is addressable).  A preprocessor
    macro that the header tests with [#if] is a field of [BoardConfig]
    holding the integer the macro expands to, so that every build of the
    header is one value of that record. *)

From Stdlib Require Import ZArith List Bool Ascii String Lia.
Import ListNotations.

Local Open Scope Z_scope.

(** ** Fixed-width integers *)

Definition to_uint8 (v : Z) : Z := v mod 256.
Definition to_uint16 (v : Z) : Z := v mod 65536.

Definition is_uint8 (v : Z) : Prop := 0 <= v < 256.

(** ** The macros of the header *)

Record BoardConfig : Type := mkBoardConfig {
  MATRIX_WIDTH : Z;
  MATRIX_HEIGHT : Z;
  PANEL_WIRING_SERPENTINE : Z;
  PANEL_FLIP_X : Z;
  PANEL_FLIP_Y : Z;
  PANEL_ROTATION : Z
}.

Definition LED_PIN : Z := 14.
Definition BRIGHTNESS_LIMIT : Z := 60.
Definition PANEL_CALIBRATION : Z := 0.
Definition FRAME_RATE_MS : Z := 100.

Definition NUM_LEDS (cfg : BoardConfig) : Z :=
  MATRIX_WIDTH cfg * MATRIX_HEIGHT cfg.

(** [#if M]: the branch is compiled in when the macro is not zero. *)
Definition pp_if (m : Z) : bool := negb (m =? 0).

(** The header as it is written: 8 by 8, every switch at 0. *)
Definition header : BoardConfig :=
  {| MATRIX_WIDTH := 8;
     MATRIX_HEIGHT := 8;
     PANEL_WIRING_SERPENTINE := 0;
     PANEL_FLIP_X := 0;
     PANEL_FLIP_Y := 0;
     PANEL_ROTATION := 0 |}.

(** The 8 by 8 panel built with other values of the three switches that
    the mapping function tests. *)
Definition panel8x8 (serpentine flip_x flip_y : Z) : BoardConfig :=
  {| MATRIX_WIDTH := 8;
     MATRIX_HEIGHT := 8;
     PANEL_WIRING_SERPENTINE := serpentine;
     PANEL_FLIP_X := flip_x;
     PANEL_FLIP_Y := flip_y;
     PANEL_ROTATION := 0 |}.

Definition set_rotation (cfg : BoardConfig) (degrees : Z) : BoardConfig :=
  {| MATRIX_WIDTH := MATRIX_WIDTH cfg;
     MATRIX_HEIGHT := MATRIX_HEIGHT cfg;
     PANEL_WIRING_SERPENTINE := PANEL_WIRING_SERPENTINE cfg;
     PANEL_FLIP_X := PANEL_FLIP_X cfg;
     PANEL_FLIP_Y := PANEL_FLIP_Y cfg;
     PANEL_ROTATION := degrees |}.

(** Two builds that differ at most in [PANEL_ROTATION]. *)
Definition same_but_rotation (c1 c2 : BoardConfig) : Prop :=
  MATRIX_WIDTH c1 = MATRIX_WIDTH c2 /\
  MATRIX_HEIGHT c1 = MATRIX_HEIGHT c2 /\
  PANEL_WIRING_SERPENTINE c1 = PANEL_WIRING_SERPENTINE c2 /\
  PANEL_FLIP_X c1 = PANEL_FLIP_X c2 /\
  PANEL_FLIP_Y c1 = PANEL_FLIP_Y c2.

(** A panel whose columns and rows can all be named by the [uint8_t]
    parameters of [XY]. *)
Definition geometry_ok (cfg : BoardConfig) : Prop :=
  0 < MATRIX_WIDTH cfg <= 256 /\ 0 < MATRIX_HEIGHT cfg <= 256.

Definition in_grid (cfg : BoardConfig) (x y : Z) : Prop :=
  0 <= x < MATRIX_WIDTH cfg /\ 0 <= y < MATRIX_HEIGHT cfg.

(** ** [XY]: logical position to physical index

    [inline uint16_t XY(uint8_t x, uint8_t y)].  The arguments are
    converted to [uint8_t] when the call binds them, each assignment to [x]
    or [y] converts its [int] right-hand side to [uint8_t], and the [int]
    value of the index expression is converted to [uint16_t] when it is
    stored in [index].  The function body is followed statement by
    statement. *)
Definition XY (cfg : BoardConfig) (x y : Z) : Z :=
  let x := to_uint8 x in
  let y := to_uint8 y in
  (* Bounds checking *)
  let x := if x >=? MATRIX_WIDTH cfg then to_uint8 (MATRIX_WIDTH cfg - 1) else x in
  let y := if y >=? MATRIX_HEIGHT cfg then to_uint8 (MATRIX_HEIGHT cfg - 1) else y in
  let y := if pp_if (PANEL_FLIP_Y cfg)
           then to_uint8 ((MATRIX_HEIGHT cfg - 1) - y) else y in
  let x := if pp_if (PANEL_FLIP_X cfg)
           then to_uint8 ((MATRIX_WIDTH cfg - 1) - x) else x in
  if pp_if (PANEL_WIRING_SERPENTINE cfg) then
    if negb (Z.land y 1 =? 0) then
      to_uint16 ((y * MATRIX_WIDTH cfg) + (MATRIX_WIDTH cfg - 1 - x))
    else
      to_uint16 ((y * MATRIX_WIDTH cfg) + x)
  else
    to_uint16 ((y * MATRIX_WIDTH cfg) + x).

(** ** The collaborators of [sendFrameData]

    [CRGB] is FastLED's pixel: three [uint8_t] channels.  Its constructor
    [CRGB(r, g, b)] takes [uint8_t] arguments, hence the conversions. *)
Record CRGB : Type := mkCRGB { r : Z; g : Z; b : Z }.

Definition CRGB_rgb (ir ig ib : Z) : CRGB :=
  {| r := to_uint8 ir; g := to_uint8 ig; b := to_uint8 ib |}.

Definition channels_ok (c : CRGB) : Prop :=
  is_uint8 (r c) /\ is_uint8 (g c) /\ is_uint8 (b c).

(** The serial port is the text written to it so far. *)
Definition Serial : Type := string.

Definition Serial_print (s : string) (port : Serial) : Serial :=
  (port ++ s)%string.

(** *** [sprintf] with the conversion [%02X]

    The argument is read as an [unsigned int] (32 bits: at most eight
    hexadecimal digits), printed with capital digits, most significant
    first, and padded on the left with zeros to a width of two. *)
Definition hex_digit (d : Z) : ascii :=
  nth (Z.to_nat d)
      (list_ascii_of_string "0123456789ABCDEF") "?"%char.

Fixpoint hex_digits (fuel : nat) (v : Z) (acc : string) : string :=
  match fuel with
  | O => acc
  | S fuel' =>
      let acc' := String (hex_digit (v mod 16)) acc in
      if v / 16 =? 0 then acc' else hex_digits fuel' (v / 16) acc'
  end.

Fixpoint zeros (n : nat) : string :=
  match n with
  | O => EmptyString
  | S n' => String "0" (zeros n')
  end.

Definition zero_pad (width : nat) (s : string) : string :=
  (zeros (width - String.length s) ++ s)%string.

Definition sprintf_02X (v : Z) : string :=
  zero_pad 2 (hex_digits 8 (v mod 4294967296) EmptyString).

(** [sprintf(buf, "%02X%02X%02X,", color.r, color.g, color.b)] *)
Definition sprintf_pixel (color : CRGB) : string :=
  (sprintf_02X (r color) ++ sprintf_02X (g color)
     ++ sprintf_02X (b color) ++ ",")%string.

(** *** Loops and memory

    [for (int i = 0; i < bound; i++) body]: the body runs for
    [i = 0, 1, ..., bound - 1], each run starting from the port the
    previous one left.  A run that reads outside the pixel buffer has no
    defined result, which is [None]. *)
Fixpoint for_from (count : nat) (i : Z)
    (body : Z -> Serial -> option Serial) (port : Serial) : option Serial :=
  match count with
  | O => Some port
  | S count' =>
      match body i port with
      | Some port' => for_from count' (i + 1) body port'
      | None => None
      end
  end.

Definition for_int (bound : Z)
    (body : Z -> Serial -> option Serial) (port : Serial) : option Serial :=
  for_from (Z.to_nat bound) 0 body port.

(** [leds[i]] for [CRGB* leds] pointing to a buffer holding the pixels of
    the list. *)
Definition read_led (leds : list CRGB) (i : Z) : option CRGB :=
  if i <? 0 then None else nth_error leds (Z.to_nat i).

(** ** [sendFrameData] *)
Definition sendFrameData (cfg : BoardConfig) (leds : list CRGB)
    (port : Serial) : option Serial :=
  let port := Serial_print "FRAME:" port in
  for_int (MATRIX_HEIGHT cfg) (fun y port =>
    for_int (MATRIX_WIDTH cfg) (fun x port =>
      match read_led leds (XY cfg x y) with
      | Some color => Some (Serial_print (sprintf_pixel color) port)
      | None => None
      end) port) port.

(** ** The palette *)
Module MatrixColors.

Definition BLACK   : CRGB := CRGB_rgb 0 0 0.
Definition RED     : CRGB := CRGB_rgb 60 0 0.
Definition GREEN   : CRGB := CRGB_rgb 0 60 0.
Definition BLUE    : CRGB := CRGB_rgb 0 0 60.
Definition YELLOW  : CRGB := CRGB_rgb 60 60 0.
Definition CYAN    : CRGB := CRGB_rgb 0 60 60.
Definition MAGENTA : CRGB := CRGB_rgb 60 0 60.
Definition WHITE   : CRGB := CRGB_rgb 60 60 60.
Definition ORANGE  : CRGB := CRGB_rgb 60 30 0.
Definition PURPLE  : CRGB := CRGB_rgb 30 0 60.

(** Every constant the namespace declares, in the order of the header. *)
Definition all : list CRGB :=
  [BLACK; RED; GREEN; BLUE; YELLOW; CYAN; MAGENTA; WHITE; ORANGE; PURPLE].

End MatrixColors.

(** ** The text format of a frame, as the design document words it

    [FRAME:RRGGBB,RRGGBB,...]: one triplet of two-digit hexadecimal channel
    values per pixel, a comma after each, the pixels in row-major logical
    order. *)
Definition two_hex (v : Z) : string :=
  String (hex_digit (v / 16)) (String (hex_digit (v mod 16)) EmptyString).

Definition RRGGBB (c : CRGB) : string :=
  (two_hex (r c) ++ two_hex (g c) ++ two_hex (b c))%string.

Fixpoint upto_from (count : nat) (i : Z) : list Z :=
  match count with
  | O => []
  | S count' => i :: upto_from count' (i + 1)
  end.

(** [0, 1, ..., n - 1] *)
Definition upto (n : Z) : list Z := upto_from (Z.to_nat n) 0.

(** The logical positions, [y] outer and [x] inner. *)
Definition logical_order (cfg : BoardConfig) : list (Z * Z) :=
  flat_map (fun y => map (fun x => (x, y)) (upto (MATRIX_WIDTH cfg)))
           (upto (MATRIX_HEIGHT cfg)).

Definition pixel_at (cfg : BoardConfig) (leds : list CRGB) (p : Z * Z) : CRGB :=
  nth (Z.to_nat (XY cfg (fst p) (snd p))) leds MatrixColors.BLACK.

Fixpoint concat_strings (l : list string) : string :=
  match l with
  | [] => EmptyString
  | s :: l' => (s ++ concat_strings l')%string
  end.

Definition frame_line (cfg : BoardConfig) (leds : list CRGB) : string :=
  ("FRAME:" ++
   concat_strings
     (map (fun p => (RRGGBB (pixel_at cfg leds p) ++ ",")%string)
          (logical_order cfg)))%string.

Definition is_hex_char (c : ascii) : bool :=
  existsb (Ascii.eqb c) (list_ascii_of_string "0123456789ABCDEF").

Fixpoint all_chars (p : ascii -> bool) (s : string) : bool :=
  match s with
  | EmptyString => true
  | String c s' => p c && all_chars p s'
  end.

(** ** The inverse of the mapping: physical index to logical position *)
Definition unflip (flag extent v : Z) : Z :=
  if pp_if flag then (extent - 1) - v else v.

Definition YX (cfg : BoardConfig) (index : Z) : Z * Z :=
  let W := MATRIX_WIDTH cfg in
  let row := index / W in
  let col := index mod W in
  let col := if pp_if (PANEL_WIRING_SERPENTINE cfg) && Z.odd row
             then (W - 1) - col else col in
  (unflip (PANEL_FLIP_X cfg) W col, unflip (PANEL_FLIP_Y cfg) (MATRIX_HEIGHT cfg) row).

(** The exhaustive test of the design document: how many logical positions
    of the grid are sent to a given physical index, and the eight builds of
    the 8 by 8 panel (either wiring, each flip on or off). *)
Definition hits (cfg : BoardConfig) (index : Z) : nat :=
  List.length
    (filter (fun p => XY cfg (fst p) (snd p) =? index) (logical_order cfg)).

Definition builds8x8 : list BoardConfig :=
  flat_map
    (fun s => flat_map (fun fx => map (fun fy => panel8x8 s fx fy) [0; 1]) [0; 1])
    [0; 1].

(** The flip pass undone on both axes: the build with the two flip
    switches at 0. *)
Definition no_flips (cfg : BoardConfig) : BoardConfig :=
  {| MATRIX_WIDTH := MATRIX_WIDTH cfg;
     MATRIX_HEIGHT := MATRIX_HEIGHT cfg;
     PANEL_WIRING_SERPENTINE := PANEL_WIRING_SERPENTINE cfg;
     PANEL_FLIP_X := 0;
     PANEL_FLIP_Y := 0;
     PANEL_ROTATION := PANEL_ROTATION cfg |}.

(** The index of a position that needs no clamping, without any
    conversion: what [XY] is shown to compute on the grid. *)
Definition grid_index (cfg : BoardConfig) (x y : Z) : Z :=
  let W := MATRIX_WIDTH cfg in
  let x' := unflip (PANEL_FLIP_X cfg) W x in
  let y' := unflip (PANEL_FLIP_Y cfg) (MATRIX_HEIGHT cfg) y in
  y' * W + (if pp_if (PANEL_WIRING_SERPENTINE cfg) && Z.odd y'
            then (W - 1) - x' else x').

(** The same build with another value of the wiring switch. *)
Definition with_wiring (cfg : BoardConfig) (serpentine : Z) : BoardConfig :=
  {| MATRIX_WIDTH := MATRIX_WIDTH cfg;
     MATRIX_HEIGHT := MATRIX_HEIGHT cfg;
     PANEL_WIRING_SERPENTINE := serpentine;
     PANEL_FLIP_X := PANEL_FLIP_X cfg;
     PANEL_FLIP_Y := PANEL_FLIP_Y cfg;
     PANEL_ROTATION := PANEL_ROTATION cfg |}.

(** [char buf[8]] in [sendFrameData]: the room [sprintf] has, the
    terminating NUL included. *)
Definition buf_size : nat := 8.

(** What [sendFrameData] prints after the prefix, pixel by pixel. *)
Definition frame_cells (cfg : BoardConfig) (leds : list CRGB) : list string :=
  map (fun p => sprintf_pixel (pixel_at cfg leds p)) (logical_order cfg).

Definition is_frame_char (c : ascii) : bool :=
  is_hex_char c || Ascii.eqb c ","%char.

(** The value of a hexadecimal digit: its place among the sixteen digits. *)
Fixpoint position (c : ascii) (l : list ascii) : Z :=
  match l with
  | [] => 0
  | a :: l' => if Ascii.eqb c a then 0 else 1 + position c l'
  end.

Definition hex_value (c : ascii) : Z :=
  position c (list_ascii_of_string "0123456789ABCDEF").

(** * Properties *)

(** ** Conversions and the parity test *)

Lemma to_uint8_small v : is_uint8 v -> to_uint8 v = v.
Proof. unfold is_uint8, to_uint8. intros Hv. apply Z.mod_small. lia. Qed.

Lemma to_uint8_range v : is_uint8 (to_uint8 v).
Proof. unfold is_uint8, to_uint8. apply Z.mod_pos_bound. lia. Qed.

Lemma to_uint8_le v : 0 <= v -> 0 <= to_uint8 v <= v.
Proof.
  unfold to_uint8. intros Hv. split.
  - apply Z.mod_pos_bound. lia.
  - apply Z.mod_le; lia.
Qed.

Lemma to_uint16_small v : 0 <= v < 65536 -> to_uint16 v = v.
Proof. unfold to_uint16. intros Hv. apply Z.mod_small. lia. Qed.

Lemma to_uint16_le v : 0 <= v -> 0 <= to_uint16 v <= v.
Proof.
  unfold to_uint16. intros Hv. split.
  - apply Z.mod_pos_bound. lia.
  - apply Z.mod_le; lia.
Qed.

(** [y & 0x01] is not zero exactly when [y] is odd. *)
Lemma low_bit_odd y : negb (Z.land y 1 =? 0) = Z.odd y.
Proof.
  change 1 with (Z.ones 1) at 1.
  rewrite Z.land_ones by lia.
  change (2 ^ 1) with 2.
  rewrite Zmod_odd.
  destruct (Z.odd y); reflexivity.
Qed.

Lemma unflip_range flag extent v :
  0 <= v < extent -> 0 <= unflip flag extent v < extent.
Proof. unfold unflip. destruct (pp_if flag); lia. Qed.

Lemma unflip_involutive flag extent v :
  unflip flag extent (unflip flag extent v) = v.
Proof. unfold unflip. destruct (pp_if flag); lia. Qed.

(** ** [XY] on the grid *)

(** On a panel that [uint8_t] coordinates cover, no conversion changes a
    value and a position of the grid is not clamped. *)
Lemma XY_grid_index cfg x y :
  geometry_ok cfg -> in_grid cfg x y -> XY cfg x y = grid_index cfg x y.
Proof.
  unfold geometry_ok, in_grid, XY, grid_index, unflip.
  intros [HW HH] [Hx Hy].
  rewrite (to_uint8_small x), (to_uint8_small y) by (unfold is_uint8; lia).
  assert (Ex : (x >=? MATRIX_WIDTH cfg) = false) by lia.
  assert (Ey : (y >=? MATRIX_HEIGHT cfg) = false) by lia.
  rewrite Ex, Ey.
  rewrite (to_uint8_small (MATRIX_HEIGHT cfg - 1 - y)),
          (to_uint8_small (MATRIX_WIDTH cfg - 1 - x))
    by (unfold is_uint8; lia).
  rewrite low_bit_odd.
  set (x' := if pp_if (PANEL_FLIP_X cfg) then _ else x).
  set (y' := if pp_if (PANEL_FLIP_Y cfg) then _ else y).
  assert (Hx' : 0 <= x' < MATRIX_WIDTH cfg)
    by (subst x'; destruct (pp_if (PANEL_FLIP_X cfg)); lia).
  assert (Hy' : 0 <= y' < MATRIX_HEIGHT cfg)
    by (subst y'; destruct (pp_if (PANEL_FLIP_Y cfg)); lia).
  destruct (pp_if (PANEL_WIRING_SERPENTINE cfg)); simpl;
    [destruct (Z.odd y')|]; apply to_uint16_small; nia.
Qed.

Lemma grid_index_range cfg x y :
  0 < MATRIX_WIDTH cfg -> in_grid cfg x y ->
  0 <= grid_index cfg x y < NUM_LEDS cfg.
Proof.
  unfold in_grid, grid_index, NUM_LEDS. intros HW [Hx Hy].
  pose proof (unflip_range (PANEL_FLIP_X cfg) _ _ Hx) as Hx'.
  pose proof (unflip_range (PANEL_FLIP_Y cfg) _ _ Hy) as Hy'.
  destruct (_ && _); nia.
Qed.

(** ** Boundedness for every input *)

Lemma bounds_check_range extent v :
  0 < extent -> is_uint8 v ->
  let v' := if v >=? extent then to_uint8 (extent - 1) else v in
  0 <= v' <= extent - 1 /\ is_uint8 v'.
Proof.
  unfold is_uint8. intros He Hv. cbv zeta.
  destruct (v >=? extent) eqn:E.
  - assert (to_uint8 (extent - 1) = extent - 1) as ->
      by (apply to_uint8_small; unfold is_uint8; lia).
    lia.
  - lia.
Qed.

Lemma flip_pass_range flag extent v :
  0 <= v <= extent - 1 ->
  let v' := if pp_if flag then to_uint8 ((extent - 1) - v) else v in
  0 <= v' <= extent - 1.
Proof.
  intros Hv. cbv zeta. destruct (pp_if flag); [|lia].
  pose proof (to_uint8_le (extent - 1 - v)). lia.
Qed.

(** C1. For every pair of arguments, whatever the wiring and the flips,
    [XY] returns an index between 0 and W*H - 1 (between 0 and 63 on the
    8 by 8 panel of the header).  [XY] is a total function: there is no
    input for which it yields anything but an index. *)
Theorem XY_bounded cfg x y :
  0 < MATRIX_WIDTH cfg -> 0 < MATRIX_HEIGHT cfg ->
  0 <= XY cfg x y <= NUM_LEDS cfg - 1.
Proof.
  intros HW HH. unfold XY, NUM_LEDS.
  pose proof (bounds_check_range _ (to_uint8 x) HW (to_uint8_range x)) as [Hx _].
  pose proof (bounds_check_range _ (to_uint8 y) HH (to_uint8_range y)) as [Hy _].
  cbv zeta in Hx, Hy.
  set (x1 := if to_uint8 x >=? _ then _ else _) in *.
  set (y1 := if to_uint8 y >=? _ then _ else _) in *.
  pose proof (flip_pass_range (PANEL_FLIP_X cfg) _ _ Hx) as Hx2.
  pose proof (flip_pass_range (PANEL_FLIP_Y cfg) _ _ Hy) as Hy2.
  cbv zeta in Hx2, Hy2.
  set (x2 := if pp_if (PANEL_FLIP_X cfg) then _ else _) in *.
  set (y2 := if pp_if (PANEL_FLIP_Y cfg) then _ else _) in *.
  assert (Hrow : 0 <= y2 * MATRIX_WIDTH cfg
                 /\ y2 * MATRIX_WIDTH cfg + MATRIX_WIDTH cfg
                    <= MATRIX_WIDTH cfg * MATRIX_HEIGHT cfg) by nia.
  destruct (pp_if (PANEL_WIRING_SERPENTINE cfg));
    [destruct (negb (Z.land y2 1 =? 0))|];
    match goal with
    | |- _ <= to_uint16 ?v <= _ => pose proof (to_uint16_le v)
    end; lia.
Qed.

Lemma XY_bounded_witness : 0 <= XY (panel8x8 1 1 1) 200 9 <= 63.
Proof. apply (XY_bounded (panel8x8 1 1 1) 200 9); reflexivity. Defined.

(** ** Row-major and serpentine wiring on the 8 by 8 panel *)

Lemma panel8x8_geometry s fx fy : geometry_ok (panel8x8 s fx fy).
Proof. unfold geometry_ok; simpl; lia. Qed.

(** C2. With row-major wiring and no flip on the 8 by 8 panel, the index
    of column [x] of row [y] is [y * 8 + x]; the corners of the first row,
    the start of the second row and the last pixel map to 0, 7, 8, 63. *)
Theorem XY_row_major_8x8 x y :
  0 <= x < 8 -> 0 <= y < 8 ->
  XY (panel8x8 0 0 0) x y = y * MATRIX_WIDTH (panel8x8 0 0 0) + x
  /\ XY (panel8x8 0 0 0) 0 0 = 0
  /\ XY (panel8x8 0 0 0) 7 0 = 7
  /\ XY (panel8x8 0 0 0) 0 1 = 8
  /\ XY (panel8x8 0 0 0) 7 7 = 63.
Proof.
  intros Hx Hy. split; [|repeat split].
  rewrite XY_grid_index by (apply panel8x8_geometry || (split; assumption)).
  reflexivity.
Qed.

Lemma XY_row_major_8x8_witness : XY (panel8x8 0 0 0) 5 3 = 3 * 8 + 5.
Proof. apply (XY_row_major_8x8 5 3); lia. Defined.

(** C4. With serpentine wiring and no flip on the 8 by 8 panel, an odd row
    runs right to left, [y * 8 + (7 - x)], and an even row left to right,
    [y * 8 + x]; row 0 starts at 0 and ends at 7, row 1 starts at 15 and
    ends at 8. *)
Theorem XY_serpentine_8x8 x y :
  0 <= x < 8 -> 0 <= y < 8 ->
  (Z.odd y = true ->
   XY (panel8x8 1 0 0) x y
   = y * MATRIX_WIDTH (panel8x8 1 0 0) + (MATRIX_WIDTH (panel8x8 1 0 0) - 1 - x))
  /\ (Z.even y = true ->
      XY (panel8x8 1 0 0) x y = y * MATRIX_WIDTH (panel8x8 1 0 0) + x)
  /\ XY (panel8x8 1 0 0) 0 0 = 0
  /\ XY (panel8x8 1 0 0) 7 0 = 7
  /\ XY (panel8x8 1 0 0) 0 1 = 15
  /\ XY (panel8x8 1 0 0) 7 1 = 8.
Proof.
  intros Hx Hy.
  assert (E : XY (panel8x8 1 0 0) x y = grid_index (panel8x8 1 0 0) x y)
    by (apply XY_grid_index; [apply panel8x8_geometry | split; assumption]).
  split; [|split; [|repeat split]].
  - intros Hodd. rewrite E. unfold grid_index, unflip. simpl.
    rewrite Hodd. reflexivity.
  - intros Heven. rewrite E. unfold grid_index, unflip. simpl.
    rewrite <- Z.negb_even, Heven. reflexivity.
Qed.

Lemma XY_serpentine_8x8_witness :
  XY (panel8x8 1 0 0) 2 3 = 3 * 8 + (8 - 1 - 2)
  /\ XY (panel8x8 1 0 0) 2 4 = 4 * 8 + 2.
Proof.
  split.
  - apply (XY_serpentine_8x8 2 3); (lia || reflexivity).
  - apply (XY_serpentine_8x8 2 4); (lia || reflexivity).
Defined.

(** ** Clamping *)

Lemma bounds_check_idem extent v :
  is_uint8 v -> extent <= v ->
  (if to_uint8 v >=? extent then to_uint8 (extent - 1) else to_uint8 v)
  = (if to_uint8 (extent - 1) >=? extent
     then to_uint8 (extent - 1) else to_uint8 (extent - 1)).
Proof.
  intros Hv Hge. rewrite (to_uint8_small v Hv).
  assert ((v >=? extent) = true) as -> by lia.
  destruct (_ >=? _); reflexivity.
Qed.

Lemma XY_clamp_x cfg x y :
  is_uint8 x -> MATRIX_WIDTH cfg <= x ->
  XY cfg x y = XY cfg (MATRIX_WIDTH cfg - 1) y.
Proof.
  intros Hx Hge. unfold XY.
  rewrite (bounds_check_idem _ _ Hx Hge). reflexivity.
Qed.

Lemma XY_clamp_y cfg x y :
  is_uint8 y -> MATRIX_HEIGHT cfg <= y ->
  XY cfg x y = XY cfg x (MATRIX_HEIGHT cfg - 1).
Proof.
  intros Hy Hge. unfold XY.
  rewrite (bounds_check_idem _ _ Hy Hge). reflexivity.
Qed.

(** C3. For every [uint8_t] input: a column at or beyond the width is
    mapped as the last column, a row at or beyond the height as the last
    row, and both at once as the last pixel position; [XY] returns an index
    in each case.  On the header's panel, column 8 of row 0 maps as column
    7 does, to 7. *)
Theorem XY_clamps_high cfg x y :
  is_uint8 x -> is_uint8 y ->
  (MATRIX_WIDTH cfg <= x -> XY cfg x y = XY cfg (MATRIX_WIDTH cfg - 1) y)
  /\ (MATRIX_HEIGHT cfg <= y -> XY cfg x y = XY cfg x (MATRIX_HEIGHT cfg - 1))
  /\ (MATRIX_WIDTH cfg <= x -> MATRIX_HEIGHT cfg <= y ->
      XY cfg x y = XY cfg (MATRIX_WIDTH cfg - 1) (MATRIX_HEIGHT cfg - 1))
  /\ XY (panel8x8 0 0 0) 8 0 = XY (panel8x8 0 0 0) 7 0
  /\ XY (panel8x8 0 0 0) 7 0 = 7.
Proof.
  intros Hx Hy. split; [|split; [|split; [|split]]].
  - apply XY_clamp_x, Hx.
  - apply XY_clamp_y, Hy.
  - intros Hxw Hyh.
    rewrite (XY_clamp_x _ _ _ Hx Hxw). apply XY_clamp_y; assumption.
  - reflexivity.
  - reflexivity.
Qed.

Lemma XY_clamps_high_witness :
  XY (panel8x8 1 0 1) 200 9 = XY (panel8x8 1 0 1) (8 - 1) (8 - 1).
Proof.
  apply (XY_clamps_high (panel8x8 1 0 1) 200 9);
    unfold is_uint8; simpl; lia.
Defined.

(** ** The flip pass *)

Lemma grid_index_no_flips cfg x y :
  grid_index cfg x y
  = grid_index (no_flips cfg)
      (unflip (PANEL_FLIP_X cfg) (MATRIX_WIDTH cfg) x)
      (unflip (PANEL_FLIP_Y cfg) (MATRIX_HEIGHT cfg) y).
Proof. reflexivity. Qed.

(** C5. The flips act on the coordinates before the wiring is applied: on
    the grid, the index under a build with flips is the index that the same
    build without flips gives to the reflected position, where [y] is
    replaced by [(H - 1) - y] when [PANEL_FLIP_Y] is set and, independently,
    [x] by [(W - 1) - x] when [PANEL_FLIP_X] is set.  On the row-major 8 by
    8 panel, with the Y flip (0,0) maps to 56 and (0,7) to 0; with the X
    flip (0,0) maps to 7 and (7,0) to 0. *)
Theorem XY_flip_pass cfg x y :
  geometry_ok cfg -> in_grid cfg x y ->
  XY cfg x y
  = XY (no_flips cfg)
      (if pp_if (PANEL_FLIP_X cfg) then (MATRIX_WIDTH cfg - 1) - x else x)
      (if pp_if (PANEL_FLIP_Y cfg) then (MATRIX_HEIGHT cfg - 1) - y else y)
  /\ XY (panel8x8 0 0 1) 0 0 = 56
  /\ XY (panel8x8 0 0 1) 0 7 = 0
  /\ XY (panel8x8 0 1 0) 0 0 = 7
  /\ XY (panel8x8 0 1 0) 7 0 = 0.
Proof.
  intros Hg Hxy. split; [|repeat split].
  rewrite (XY_grid_index cfg x y Hg Hxy), grid_index_no_flips.
  symmetry. apply XY_grid_index.
  - exact Hg.
  - destruct Hxy as [Hx Hy]. split.
    + apply (unflip_range (PANEL_FLIP_X cfg)), Hx.
    + apply (unflip_range (PANEL_FLIP_Y cfg)), Hy.
Qed.

Lemma XY_flip_pass_witness :
  XY (panel8x8 1 1 1) 2 4 = XY (panel8x8 1 0 0) (8 - 1 - 2) (8 - 1 - 4).
Proof.
  apply (XY_flip_pass (panel8x8 1 1 1) 2 4).
  - unfold geometry_ok; simpl; lia.
  - unfold in_grid; simpl; lia.
Defined.

(** ** The mapping is a bijection of the grid onto the indices *)

Lemma row_col_unique W row1 col1 row2 col2 :
  0 <= col1 < W -> 0 <= col2 < W ->
  row1 * W + col1 = row2 * W + col2 -> row1 = row2 /\ col1 = col2.
Proof.
  intros H1 H2 E.
  assert (row1 = row2) by nia.
  subst row2. lia.
Qed.

Lemma unflip_injective flag extent v1 v2 :
  unflip flag extent v1 = unflip flag extent v2 -> v1 = v2.
Proof. unfold unflip. destruct (pp_if flag); lia. Qed.

Lemma grid_index_injective cfg x1 y1 x2 y2 :
  in_grid cfg x1 y1 -> in_grid cfg x2 y2 ->
  grid_index cfg x1 y1 = grid_index cfg x2 y2 -> x1 = x2 /\ y1 = y2.
Proof.
  unfold in_grid, grid_index. intros [Hx1 Hy1] [Hx2 Hy2]. cbv zeta.
  pose proof (unflip_range (PANEL_FLIP_X cfg) _ _ Hx1) as Rx1.
  pose proof (unflip_range (PANEL_FLIP_X cfg) _ _ Hx2) as Rx2.
  set (W := MATRIX_WIDTH cfg) in *.
  set (s := pp_if (PANEL_WIRING_SERPENTINE cfg)).
  set (u1 := unflip (PANEL_FLIP_X cfg) W x1) in *.
  set (u2 := unflip (PANEL_FLIP_X cfg) W x2) in *.
  set (v1 := unflip (PANEL_FLIP_Y cfg) (MATRIX_HEIGHT cfg) y1).
  set (v2 := unflip (PANEL_FLIP_Y cfg) (MATRIX_HEIGHT cfg) y2).
  intros E.
  apply row_col_unique in E;
    [| destruct (s && Z.odd v1); lia | destruct (s && Z.odd v2); lia].
  destruct E as [Ev Ec]. rewrite Ev in Ec.
  assert (Eu : u1 = u2) by (destruct (s && Z.odd v2); lia).
  split.
  - apply (unflip_injective (PANEL_FLIP_X cfg) W), Eu.
  - apply (unflip_injective (PANEL_FLIP_Y cfg) (MATRIX_HEIGHT cfg)), Ev.
Qed.

Lemma YX_in_grid cfg i :
  0 < MATRIX_WIDTH cfg -> 0 <= i < NUM_LEDS cfg ->
  in_grid cfg (fst (YX cfg i)) (snd (YX cfg i)).
Proof.
  unfold NUM_LEDS, in_grid, YX. intros HW Hi. cbn [fst snd].
  pose proof (Z.mod_pos_bound i (MATRIX_WIDTH cfg) HW) as Hc.
  assert (Hr : 0 <= i / MATRIX_WIDTH cfg < MATRIX_HEIGHT cfg).
  { split.
    - apply Z.div_pos; lia.
    - apply Z.div_lt_upper_bound; lia. }
  split; apply unflip_range; [destruct (_ && _); lia | exact Hr].
Qed.

Lemma grid_index_YX cfg i :
  0 < MATRIX_WIDTH cfg ->
  grid_index cfg (fst (YX cfg i)) (snd (YX cfg i)) = i.
Proof.
  unfold grid_index, YX. intros HW. cbn [fst snd].
  rewrite !unflip_involutive.
  pose proof (Z.div_mod i (MATRIX_WIDTH cfg)) as E.
  destruct (_ && _); lia.
Qed.

Lemma YX_grid_index cfg x y :
  0 < MATRIX_WIDTH cfg -> in_grid cfg x y ->
  YX cfg (grid_index cfg x y) = (x, y).
Proof.
  intros HW Hxy.
  pose proof (grid_index_range cfg x y HW Hxy) as Hr.
  pose proof (YX_in_grid cfg _ HW Hr) as Hg.
  pose proof (grid_index_YX cfg (grid_index cfg x y) HW) as E.
  apply grid_index_injective in E; [| exact Hg | exact Hxy].
  destruct (YX cfg (grid_index cfg x y)) as [x0 y0]. simpl in E.
  destruct E; subst; reflexivity.
Qed.

(** C6. For every build (either wiring, any flips) of a panel that
    [uint8_t] coordinates cover, [XY] restricted to the grid
    [{0..W-1} x {0..H-1}] is a bijection onto [{0, ..., W*H - 1}]: it maps
    the grid into that range, two positions of the grid with one index are
    the same position, and every index of the range is the image of a
    position of the grid. *)
Theorem XY_bijection cfg :
  geometry_ok cfg ->
  (forall x y, in_grid cfg x y -> 0 <= XY cfg x y < NUM_LEDS cfg)
  /\ (forall x1 y1 x2 y2,
        in_grid cfg x1 y1 -> in_grid cfg x2 y2 ->
        XY cfg x1 y1 = XY cfg x2 y2 -> x1 = x2 /\ y1 = y2)
  /\ (forall i, 0 <= i < NUM_LEDS cfg ->
        exists x y, in_grid cfg x y /\ XY cfg x y = i).
Proof.
  intros Hg. pose proof Hg as [[HW _] _]. split; [|split].
  - intros x y Hxy. rewrite XY_grid_index by assumption.
    apply grid_index_range; assumption.
  - intros x1 y1 x2 y2 H1 H2.
    rewrite !XY_grid_index by assumption.
    apply grid_index_injective; assumption.
  - intros i Hi.
    exists (fst (YX cfg i)), (snd (YX cfg i)).
    pose proof (YX_in_grid cfg i HW Hi) as Hin.
    split; [exact Hin|].
    rewrite XY_grid_index by assumption.
    apply grid_index_YX, HW.
Qed.

Lemma XY_bijection_witness :
  (forall x y, in_grid (panel8x8 1 0 1) x y ->
               0 <= XY (panel8x8 1 0 1) x y < NUM_LEDS (panel8x8 1 0 1))
  /\ (forall x1 y1 x2 y2,
        in_grid (panel8x8 1 0 1) x1 y1 -> in_grid (panel8x8 1 0 1) x2 y2 ->
        XY (panel8x8 1 0 1) x1 y1 = XY (panel8x8 1 0 1) x2 y2 ->
        x1 = x2 /\ y1 = y2)
  /\ (forall i, 0 <= i < NUM_LEDS (panel8x8 1 0 1) ->
        exists x y, in_grid (panel8x8 1 0 1) x y /\ XY (panel8x8 1 0 1) x y = i).
Proof.
  apply (XY_bijection (panel8x8 1 0 1)).
  unfold geometry_ok; simpl; lia.
Defined.

(** ** Rotation *)

(** C7. The index does not depend on [PANEL_ROTATION]: two builds that
    agree on the geometry, the wiring and the flips give every input the
    same index, whatever their rotation settings; in particular changing
    the rotation of a build changes no index. *)
Theorem XY_ignores_rotation c1 c2 x y :
  same_but_rotation c1 c2 ->
  XY c1 x y = XY c2 x y
  /\ forall degrees, XY (set_rotation c1 degrees) x y = XY c1 x y.
Proof.
  intros (EW & EH & ES & EX & EY). split.
  - unfold XY. rewrite EW, EH, ES, EX, EY. reflexivity.
  - intros degrees. reflexivity.
Qed.

Lemma XY_ignores_rotation_witness :
  XY (set_rotation (panel8x8 1 1 0) 90) 3 5
  = XY (set_rotation (panel8x8 1 1 0) 270) 3 5.
Proof.
  apply (XY_ignores_rotation
           (set_rotation (panel8x8 1 1 0) 90)
           (set_rotation (panel8x8 1 1 0) 270) 3 5).
  unfold same_but_rotation; simpl; repeat split; reflexivity.
Defined.

(** ** The build of the header *)

(** C9. In the build the header selects (serpentine wiring off, both flips
    off) [XY] is the clamped row-major map: for all [uint8_t] [x] and [y],
    [XY(x, y) = min(y, 7) * 8 + min(x, 7)].  Neither the serpentine branch
    nor a flip is compiled in, so that row 1 runs from 8 to 15 and not, as
    the comment above the wiring macro draws it, from 15 down to 8. *)
Theorem XY_header_row_major x y :
  is_uint8 x -> is_uint8 y ->
  XY header x y = Z.min y 7 * 8 + Z.min x 7
  /\ pp_if (PANEL_WIRING_SERPENTINE header) = false
  /\ pp_if (PANEL_FLIP_X header) = false
  /\ pp_if (PANEL_FLIP_Y header) = false
  /\ XY header 0 1 = 8
  /\ XY header 7 1 = 15.
Proof.
  intros Hx Hy. split; [|repeat split].
  unfold XY. simpl.
  rewrite (to_uint8_small x Hx), (to_uint8_small y Hy).
  unfold is_uint8 in Hx, Hy.
  change (to_uint8 7) with 7.
  destruct (x >=? 8) eqn:Ex; destruct (y >=? 8) eqn:Ey;
    rewrite to_uint16_small by lia; lia.
Qed.

Lemma XY_header_row_major_witness :
  XY header 200 3 = Z.min 3 7 * 8 + Z.min 200 7.
Proof. apply (XY_header_row_major 200 3); unfold is_uint8; lia. Defined.

(** ** The palette and the brightness ceiling *)

(** C10. Each channel of each colour of [MatrixColors] is at most
    [BRIGHTNESS_LIMIT], which is 60. *)
Theorem MatrixColors_within_limit :
  BRIGHTNESS_LIMIT = 60
  /\ Forall (fun c => 0 <= r c <= BRIGHTNESS_LIMIT
                      /\ 0 <= g c <= BRIGHTNESS_LIMIT
                      /\ 0 <= b c <= BRIGHTNESS_LIMIT)
            MatrixColors.all.
Proof.
  split; [reflexivity|].
  unfold MatrixColors.all.
  repeat (apply Forall_cons; [vm_compute; intuition discriminate|]).
  apply Forall_nil.
Qed.

(** ** The index stays inside the buffer *)

Lemma wiring_pass_range W H serpentine x y :
  0 <= x <= W - 1 -> 0 <= y <= H - 1 ->
  let index :=
    if pp_if serpentine then
      if negb (Z.land y 1 =? 0) then to_uint16 (y * W + (W - 1 - x))
      else to_uint16 (y * W + x)
    else to_uint16 (y * W + x) in
  0 <= index < W * H.
Proof.
  intros Hx Hy. cbv zeta.
  assert (Hrow : 0 <= y * W /\ y * W + W <= W * H) by nia.
  destruct (pp_if serpentine); [destruct (negb (Z.land y 1 =? 0))|];
    match goal with
    | |- _ <= to_uint16 ?v < _ => pose proof (to_uint16_le v)
    end; lia.
Qed.

Lemma XY_index_range cfg x y :
  0 < MATRIX_WIDTH cfg -> 0 < MATRIX_HEIGHT cfg ->
  0 <= XY cfg x y < NUM_LEDS cfg.
Proof.
  intros HW HH.
  destruct (bounds_check_range _ (to_uint8 x) HW (to_uint8_range x)) as [Hx _].
  destruct (bounds_check_range _ (to_uint8 y) HH (to_uint8_range y)) as [Hy _].
  apply (flip_pass_range (PANEL_FLIP_X cfg)) in Hx.
  apply (flip_pass_range (PANEL_FLIP_Y cfg)) in Hy.
  exact (wiring_pass_range _ _ (PANEL_WIRING_SERPENTINE cfg) _ _ Hx Hy).
Qed.

(** ** The frame dump *)

Section Strings.

Local Open Scope string_scope.

Lemma string_app_assoc (s1 s2 s3 : string) :
  (s1 ++ s2) ++ s3 = s1 ++ (s2 ++ s3).
Proof.
  induction s1 as [|c s1 IH]; simpl; [reflexivity|].
  rewrite IH. reflexivity.
Qed.

Lemma string_app_empty (s : string) : s ++ "" = s.
Proof.
  induction s as [|c s IH]; simpl; [reflexivity|].
  rewrite IH. reflexivity.
Qed.

Lemma concat_strings_app (l1 l2 : list string) :
  concat_strings (l1 ++ l2)%list = concat_strings l1 ++ concat_strings l2.
Proof.
  induction l1 as [|s l1 IH]; simpl; [reflexivity|].
  rewrite IH, string_app_assoc. reflexivity.
Qed.

Lemma concat_strings_flat_map {A B : Type} (cell : B -> string)
    (row : A -> list B) (l : list A) :
  concat_strings (map cell (flat_map row l))
  = concat_strings (map (fun a => concat_strings (map cell (row a))) l).
Proof.
  induction l as [|a l IH]; simpl; [reflexivity|].
  rewrite map_app, concat_strings_app, IH. reflexivity.
Qed.

End Strings.

Lemma hex_digit_is_hex d : 0 <= d < 16 -> is_hex_char (hex_digit d) = true.
Proof.
  intros Hd. unfold hex_digit.
  assert (Hn : (Z.to_nat d < 16)%nat) by lia.
  revert Hn. generalize (Z.to_nat d). intros n Hn.
  do 16 (destruct n as [|n]; [reflexivity|]). lia.
Qed.

(** [%02X] prints a [uint8_t] as exactly its two hexadecimal digits. *)
Lemma sprintf_02X_uint8 v : is_uint8 v -> sprintf_02X v = two_hex v.
Proof.
  unfold is_uint8, sprintf_02X, two_hex. intros Hv.
  rewrite (Z.mod_small v 4294967296) by lia.
  assert (Hq : 0 <= v / 16 < 16).
  { split; [apply Z.div_pos; lia | apply Z.div_lt_upper_bound; lia]. }
  cbn [hex_digits].
  destruct (v / 16 =? 0) eqn:E.
  - apply Z.eqb_eq in E. rewrite E. reflexivity.
  - rewrite (Z.div_small (v / 16) 16 Hq).
    rewrite (Z.mod_small (v / 16) 16 Hq). reflexivity.
Qed.

Lemma sprintf_pixel_RRGGBB c :
  channels_ok c -> sprintf_pixel c = (RRGGBB c ++ ",")%string.
Proof.
  intros (Hr & Hg & Hb). unfold sprintf_pixel, RRGGBB.
  rewrite !sprintf_02X_uint8 by assumption. reflexivity.
Qed.

Lemma RRGGBB_six_hex c :
  channels_ok c ->
  String.length (RRGGBB c) = 6%nat /\ all_chars is_hex_char (RRGGBB c) = true.
Proof.
  unfold channels_ok, is_uint8. intros (Hr & Hg & Hb).
  split; [reflexivity|].
  unfold RRGGBB, two_hex. cbn [append all_chars].
  assert (D : forall v, 0 <= v < 256 -> 0 <= v / 16 < 16).
  { intros v Hv. split; [apply Z.div_pos; lia | apply Z.div_lt_upper_bound; lia]. }
  assert (M : forall v, 0 <= v mod 16 < 16)
    by (intros v; apply Z.mod_pos_bound; lia).
  rewrite !hex_digit_is_hex by auto. reflexivity.
Qed.

Lemma for_from_prints (f : Z -> string) body count :
  forall i port,
    (forall j p, i <= j < i + Z.of_nat count ->
                 body j p = Some (p ++ f j)%string) ->
    for_from count i body port
    = Some (port ++ concat_strings (map f (upto_from count i)))%string.
Proof.
  induction count as [|count IH]; intros i port Hbody.
  - simpl. rewrite string_app_empty. reflexivity.
  - cbn [for_from upto_from map concat_strings].
    rewrite Hbody by lia.
    rewrite IH by (intros j p Hj; apply Hbody; lia).
    rewrite string_app_assoc. reflexivity.
Qed.

Lemma for_int_prints (f : Z -> string) body bound port :
  (forall j p, 0 <= j < bound -> body j p = Some (p ++ f j)%string) ->
  for_int bound body port
  = Some (port ++ concat_strings (map f (upto bound)))%string.
Proof.
  intros Hbody. unfold for_int, upto.
  apply for_from_prints. intros j p Hj. apply Hbody. lia.
Qed.

Lemma read_led_in_bounds leds i :
  0 <= i < Z.of_nat (List.length leds) ->
  read_led leds i = Some (nth (Z.to_nat i) leds MatrixColors.BLACK).
Proof.
  intros Hi. unfold read_led.
  assert ((i <? 0) = false) as -> by lia.
  apply nth_error_nth'. lia.
Qed.

Lemma BLACK_channels_ok : channels_ok MatrixColors.BLACK.
Proof. unfold channels_ok, is_uint8; simpl; repeat split; discriminate. Qed.

Lemma pixel_at_channels_ok cfg leds p :
  Forall channels_ok leds -> channels_ok (pixel_at cfg leds p).
Proof.
  intros Hall. unfold pixel_at.
  destruct (nth_in_or_default (Z.to_nat (XY cfg (fst p) (snd p))) leds
              MatrixColors.BLACK) as [Hin | Hdef].
  - rewrite Forall_forall in Hall. apply Hall, Hin.
  - rewrite Hdef. apply BLACK_channels_ok.
Qed.

(** C8. Given a buffer of at least W*H pixels, [sendFrameData] appends to
    the port exactly [FRAME:] followed, for [y] from 0 to H-1 and within
    each [y] for [x] from 0 to W-1, by the colour of [leds[XY(x, y)]]
    written as six hexadecimal digits (two for [r], two for [g], two for
    [b]) and a comma. *)
Theorem sendFrameData_format cfg leds port :
  NUM_LEDS cfg <= Z.of_nat (List.length leds) ->
  Forall channels_ok leds ->
  sendFrameData cfg leds port = Some (port ++ frame_line cfg leds)%string
  /\ forall p,
       String.length (RRGGBB (pixel_at cfg leds p)) = 6%nat
       /\ all_chars is_hex_char (RRGGBB (pixel_at cfg leds p)) = true.
Proof.
  intros Hlen Hall. split.
  2:{ intros p. apply RRGGBB_six_hex, pixel_at_channels_ok, Hall. }
  unfold sendFrameData, frame_line, logical_order, Serial_print.
  set (cell := fun p : Z * Z => (RRGGBB (pixel_at cfg leds p) ++ ",")%string).
  rewrite (concat_strings_flat_map cell).
  rewrite <- string_app_assoc.
  apply for_int_prints. intros y p Hy.
  rewrite map_map.
  apply for_int_prints. intros x q Hx.
  pose proof (XY_index_range cfg x y ltac:(lia) ltac:(lia)) as Hidx.
  rewrite read_led_in_bounds by lia.
  unfold cell, pixel_at. cbn [fst snd].
  rewrite sprintf_pixel_RRGGBB; [reflexivity|].
  apply (pixel_at_channels_ok cfg leds (x, y)), Hall.
Qed.

Lemma sendFrameData_format_witness :
  sendFrameData (mkBoardConfig 2 2 1 0 0 0)
    [MatrixColors.RED; MatrixColors.GREEN; MatrixColors.BLUE; MatrixColors.WHITE]
    EmptyString
  = Some "FRAME:3C0000,003C00,3C3C3C,00003C,"%string.
Proof.
  apply (sendFrameData_format (mkBoardConfig 2 2 1 0 0 0)
           [MatrixColors.RED; MatrixColors.GREEN; MatrixColors.BLUE;
            MatrixColors.WHITE] EmptyString).
  - unfold NUM_LEDS. simpl. lia.
  - repeat (apply Forall_cons;
            [vm_compute; intuition discriminate|]).
    apply Forall_nil.
Defined.

(** * Further properties of the mapping *)

(** X1. The arguments are taken modulo 256 before the bounds check: an
    [int] argument beyond the range of [uint8_t] is not clamped to the last
    column or row but wraps, so that adding a multiple of 256 to either
    argument changes no index. *)
Theorem XY_wraps_arguments cfg x y j k :
  XY cfg (x + 256 * j) (y + 256 * k) = XY cfg x y.
Proof.
  assert (E : forall v n, to_uint8 (v + 256 * n) = to_uint8 v).
  { intros v n. unfold to_uint8. rewrite (Z.mul_comm 256 n).
    apply Z_mod_plus_full. }
  unfold XY. rewrite !E. reflexivity.
Qed.

(** X2. Whatever the wiring and the flips, a logical row of the grid
    occupies one block of W consecutive indices: the index divided by the
    width is the row, reflected when [PANEL_FLIP_Y] is set.  The serpentine
    wiring and the X flip only permute pixels within their row's block. *)
Theorem XY_row_block cfg x y :
  geometry_ok cfg -> in_grid cfg x y ->
  XY cfg x y / MATRIX_WIDTH cfg
  = (if pp_if (PANEL_FLIP_Y cfg) then (MATRIX_HEIGHT cfg - 1) - y else y).
Proof.
  intros Hg Hxy. rewrite (XY_grid_index cfg x y Hg Hxy).
  destruct Hg as [HW _]. destruct Hxy as [Hx Hy].
  unfold grid_index. cbv zeta.
  pose proof (unflip_range (PANEL_FLIP_X cfg) _ _ Hx) as Hx'.
  fold (unflip (PANEL_FLIP_Y cfg) (MATRIX_HEIGHT cfg) y).
  set (row := unflip (PANEL_FLIP_Y cfg) (MATRIX_HEIGHT cfg) y).
  rewrite Z.add_comm, Z.div_add by lia.
  rewrite Z.div_small; [lia|].
  destruct (_ && _); lia.
Qed.

Lemma XY_row_block_witness : XY (panel8x8 1 1 1) 2 1 / 8 = 8 - 1 - 1.
Proof.
  apply (XY_row_block (panel8x8 1 1 1) 2 1).
  - unfold geometry_ok; simpl; lia.
  - unfold in_grid; simpl; lia.
Defined.

(** X3. With the serpentine wiring (and any flips), two positions of the
    grid whose indices are consecutive are neighbours on the panel: they
    differ by one step in exactly one coordinate.  This is the snake of the
    header's comment: a row ends next to where the following row starts. *)
Theorem XY_serpentine_adjacent cfg x1 y1 x2 y2 :
  geometry_ok cfg ->
  pp_if (PANEL_WIRING_SERPENTINE cfg) = true ->
  in_grid cfg x1 y1 -> in_grid cfg x2 y2 ->
  XY cfg x2 y2 = XY cfg x1 y1 + 1 ->
  Z.abs (x2 - x1) + Z.abs (y2 - y1) = 1.
Proof.
  intros Hg Hs H1 H2.
  rewrite !XY_grid_index by assumption.
  destruct Hg as [HW HH]. destruct H1 as [Hx1 Hy1]. destruct H2 as [Hx2 Hy2].
  unfold grid_index. cbv zeta. rewrite Hs. cbn [andb].
  pose proof (unflip_range (PANEL_FLIP_X cfg) _ _ Hx1) as Ru1.
  pose proof (unflip_range (PANEL_FLIP_X cfg) _ _ Hx2) as Ru2.
  assert (Dx : Z.abs (x2 - x1)
               = Z.abs (unflip (PANEL_FLIP_X cfg) (MATRIX_WIDTH cfg) x2
                        - unflip (PANEL_FLIP_X cfg) (MATRIX_WIDTH cfg) x1))
    by (unfold unflip; destruct (pp_if (PANEL_FLIP_X cfg)); lia).
  assert (Dy : Z.abs (y2 - y1)
               = Z.abs (unflip (PANEL_FLIP_Y cfg) (MATRIX_HEIGHT cfg) y2
                        - unflip (PANEL_FLIP_Y cfg) (MATRIX_HEIGHT cfg) y1))
    by (unfold unflip; destruct (pp_if (PANEL_FLIP_Y cfg)); lia).
  rewrite Dx, Dy. clear Dx Dy.
  set (W := MATRIX_WIDTH cfg) in *.
  generalize dependent (unflip (PANEL_FLIP_X cfg) W x1). intros u1 Ru1.
  generalize dependent (unflip (PANEL_FLIP_X cfg) W x2). intros u2 Ru2.
  generalize (unflip (PANEL_FLIP_Y cfg) (MATRIX_HEIGHT cfg) y1). intros v1.
  generalize (unflip (PANEL_FLIP_Y cfg) (MATRIX_HEIGHT cfg) y2). intros v2.
  intros E.
  assert (Hv : v2 = v1 \/ v2 = v1 + 1).
  { assert (v1 <= v2 <= v1 + 1); [|lia].
    destruct (Z.odd v1), (Z.odd v2); nia. }
  destruct Hv as [-> | ->].
  - destruct (Z.odd v1); lia.
  - replace (v1 + 1) with (Z.succ v1) in E by lia.
    rewrite Z.odd_succ, <- Z.negb_odd in E.
    replace (Z.succ v1) with (v1 + 1) in E by lia.
    destruct (Z.odd v1); cbn [negb] in E; nia.
Qed.

Lemma XY_serpentine_adjacent_witness : Z.abs (7 - 7) + Z.abs (1 - 0) = 1.
Proof.
  apply (XY_serpentine_adjacent (panel8x8 1 0 0) 7 0 7 1).
  - unfold geometry_ok; simpl; lia.
  - reflexivity.
  - unfold in_grid; simpl; lia.
  - unfold in_grid; simpl; lia.
  - reflexivity.
Defined.

(** X4. With the row-major wiring, setting both flips reverses the strip:
    a position of the grid gets the index [W*H - 1 - i], where [i] is its
    index in the same build without flips. *)
Theorem XY_both_flips_reverse cfg x y :
  geometry_ok cfg -> in_grid cfg x y ->
  pp_if (PANEL_WIRING_SERPENTINE cfg) = false ->
  pp_if (PANEL_FLIP_X cfg) = true ->
  pp_if (PANEL_FLIP_Y cfg) = true ->
  XY cfg x y = NUM_LEDS cfg - 1 - XY (no_flips cfg) x y.
Proof.
  intros Hg Hxy Hs Hfx Hfy.
  rewrite (XY_grid_index cfg x y Hg Hxy).
  rewrite (XY_grid_index (no_flips cfg) x y Hg Hxy).
  unfold grid_index, unflip, NUM_LEDS. cbn [no_flips MATRIX_WIDTH MATRIX_HEIGHT
    PANEL_WIRING_SERPENTINE PANEL_FLIP_X PANEL_FLIP_Y].
  rewrite Hs, Hfx, Hfy. cbn [andb pp_if Z.eqb negb]. ring.
Qed.

Lemma XY_both_flips_reverse_witness :
  XY (panel8x8 0 1 1) 2 5 = 64 - 1 - XY (panel8x8 0 0 0) 2 5.
Proof.
  apply (XY_both_flips_reverse (panel8x8 0 1 1) 2 5).
  - unfold geometry_ok; simpl; lia.
  - unfold in_grid; simpl; lia.
  - reflexivity.
  - reflexivity.
  - reflexivity.
Defined.

(** X5. The serpentine wiring is the row-major wiring with the columns of
    every odd physical row mirrored: on the grid, the serpentine index of
    [(x, y)] is the row-major index (same flips) of [(W - 1 - x, y)] when
    the row, after the Y flip, is odd, and of [(x, y)] when it is even. *)
Theorem XY_serpentine_mirrors_odd_rows cfg x y :
  geometry_ok cfg -> in_grid cfg x y ->
  pp_if (PANEL_WIRING_SERPENTINE cfg) = true ->
  XY cfg x y
  = XY (with_wiring cfg 0)
      (if Z.odd (if pp_if (PANEL_FLIP_Y cfg)
                 then (MATRIX_HEIGHT cfg - 1) - y else y)
       then (MATRIX_WIDTH cfg - 1) - x else x)
      y.
Proof.
  intros Hg Hxy Hs.
  rewrite (XY_grid_index cfg x y Hg Hxy).
  rewrite (XY_grid_index (with_wiring cfg 0)).
  - unfold grid_index, unflip. cbn [with_wiring MATRIX_WIDTH MATRIX_HEIGHT
      PANEL_WIRING_SERPENTINE PANEL_FLIP_X PANEL_FLIP_Y].
    rewrite Hs. cbn [andb pp_if Z.eqb negb].
    destruct (Z.odd _); destruct (pp_if (PANEL_FLIP_X cfg)); lia.
  - exact Hg.
  - destruct Hxy as [Hx Hy]. split; [|exact Hy].
    cbn [with_wiring MATRIX_WIDTH]. destruct (Z.odd _); lia.
Qed.

Lemma XY_serpentine_mirrors_odd_rows_witness :
  XY (panel8x8 1 0 0) 2 3 = XY (panel8x8 0 0 0) (8 - 1 - 2) 3.
Proof.
  apply (XY_serpentine_mirrors_odd_rows (panel8x8 1 0 0) 2 3).
  - unfold geometry_ok; simpl; lia.
  - unfold in_grid; simpl; lia.
  - reflexivity.
Defined.

(** X6. On a panel of even width the two wirings give a position of the
    grid the same index exactly when its row, after the Y flip, is even:
    a build with the row-major wiring addresses every pixel of every odd
    row of a serpentine panel at the wrong place. *)
Theorem XY_wirings_agree_on_even_rows cfg x y :
  geometry_ok cfg -> in_grid cfg x y ->
  Z.even (MATRIX_WIDTH cfg) = true ->
  XY (with_wiring cfg 1) x y = XY (with_wiring cfg 0) x y
  <-> Z.even (if pp_if (PANEL_FLIP_Y cfg)
              then (MATRIX_HEIGHT cfg - 1) - y else y) = true.
Proof.
  intros Hg Hxy HW.
  rewrite (XY_grid_index (with_wiring cfg 1) x y Hg Hxy).
  rewrite (XY_grid_index (with_wiring cfg 0) x y Hg Hxy).
  unfold grid_index, unflip. cbn [with_wiring MATRIX_WIDTH MATRIX_HEIGHT
    PANEL_WIRING_SERPENTINE PANEL_FLIP_X PANEL_FLIP_Y].
  cbn [andb pp_if Z.eqb negb].
  apply Z.even_spec in HW. destruct HW as [h HW].
  rewrite <- Z.negb_odd.
  destruct (Z.odd _); cbn [negb].
  - split; [|discriminate].
    destruct (pp_if (PANEL_FLIP_X cfg)); lia.
  - split; reflexivity.
Qed.

Lemma XY_wirings_agree_on_even_rows_witness :
  XY (panel8x8 1 0 0) 3 4 = XY (panel8x8 0 0 0) 3 4 <-> Z.even 4 = true.
Proof.
  apply (XY_wirings_agree_on_even_rows header 3 4).
  - unfold geometry_ok; simpl; lia.
  - unfold in_grid; simpl; lia.
  - reflexivity.
Defined.

(** * Further properties of the frame dump *)

Lemma in_upto_from count :
  forall i j, In j (upto_from count i) <-> i <= j < i + Z.of_nat count.
Proof.
  induction count as [|count IH]; intros i j; cbn [upto_from In].
  - lia.
  - rewrite IH. lia.
Qed.

Lemma length_upto_from count : forall i, List.length (upto_from count i) = count.
Proof.
  induction count as [|count IH]; intros i; cbn [upto_from List.length].
  - reflexivity.
  - rewrite IH. reflexivity.
Qed.

Lemma in_logical_order cfg x y :
  In (x, y) (logical_order cfg) <-> in_grid cfg x y.
Proof.
  unfold logical_order, upto, in_grid. rewrite in_flat_map. split.
  - intros [y0 [Hy Hin]].
    apply in_map_iff in Hin. destruct Hin as [x0 [E Hx]].
    inversion E; subst x0 y0.
    apply in_upto_from in Hy. apply in_upto_from in Hx. lia.
  - intros [Hx Hy]. exists y. split.
    + apply in_upto_from. lia.
    + apply in_map_iff. exists x. split; [reflexivity|].
      apply in_upto_from. lia.
Qed.

Lemma logical_order_empty cfg :
  MATRIX_WIDTH cfg <= 0 \/ MATRIX_HEIGHT cfg <= 0 -> logical_order cfg = [].
Proof.
  intros Hdeg.
  destruct (logical_order cfg) as [|[x y] rest] eqn:E; [reflexivity|].
  assert (Hin : In (x, y) (logical_order cfg)) by (rewrite E; left; reflexivity).
  apply in_logical_order in Hin. unfold in_grid in Hin. lia.
Qed.

Lemma length_rows {A : Type} (row : Z -> list A) (w rows : nat) :
  (forall y, List.length (row y) = w) ->
  forall y0, List.length (flat_map row (upto_from rows y0)) = (rows * w)%nat.
Proof.
  intros Hrow. induction rows as [|rows IH]; intros y0;
    cbn [upto_from flat_map].
  - reflexivity.
  - rewrite length_app, Hrow, IH. reflexivity.
Qed.

Lemma length_logical_order cfg :
  List.length (logical_order cfg)
  = (Z.to_nat (MATRIX_HEIGHT cfg) * Z.to_nat (MATRIX_WIDTH cfg))%nat.
Proof.
  unfold logical_order, upto. apply length_rows.
  intros y. rewrite length_map. apply length_upto_from.
Qed.

(** What the two loops print, whenever every read stays inside the
    buffer; nothing is asked of the channel values. *)
Lemma sendFrameData_cells cfg leds port :
  (0 < MATRIX_WIDTH cfg -> 0 < MATRIX_HEIGHT cfg ->
   NUM_LEDS cfg <= Z.of_nat (List.length leds)) ->
  sendFrameData cfg leds port
  = Some (port ++ "FRAME:" ++ concat_strings (frame_cells cfg leds))%string.
Proof.
  intros Hlen.
  unfold sendFrameData, frame_cells, logical_order, Serial_print.
  set (cell := fun p : Z * Z => sprintf_pixel (pixel_at cfg leds p)).
  rewrite (concat_strings_flat_map cell).
  rewrite <- string_app_assoc.
  apply for_int_prints. intros y p Hy.
  rewrite map_map.
  apply for_int_prints. intros x q Hx.
  pose proof (XY_index_range cfg x y ltac:(lia) ltac:(lia)) as Hidx.
  rewrite read_led_in_bounds by lia.
  reflexivity.
Qed.

Lemma for_from_fails body count :
  forall i port j,
    i <= j < i + Z.of_nat count ->
    (forall p, body j p = None) ->
    for_from count i body port = None.
Proof.
  induction count as [|count IH]; intros i port j Hj Hnone.
  - lia.
  - cbn [for_from].
    destruct (body i port) as [port'|] eqn:E; [|reflexivity].
    destruct (Z.eq_dec j i) as [-> | Hne].
    + rewrite Hnone in E. discriminate.
    + apply (IH (i + 1) port' j); [lia | exact Hnone].
Qed.

Lemma all_chars_app p s1 s2 :
  all_chars p (s1 ++ s2)%string = all_chars p s1 && all_chars p s2.
Proof.
  induction s1 as [|c s1 IH]; cbn [append all_chars]; [reflexivity|].
  rewrite IH, andb_assoc. reflexivity.
Qed.

Lemma all_chars_weaken (p q : ascii -> bool) s :
  (forall c, p c = true -> q c = true) ->
  all_chars p s = true -> all_chars q s = true.
Proof.
  intros Hpq. induction s as [|c s IH]; cbn [all_chars]; [reflexivity|].
  intros H. apply andb_true_iff in H. destruct H as [Hc Hs].
  rewrite (Hpq c Hc), (IH Hs). reflexivity.
Qed.

Lemma string_length_app s1 s2 :
  String.length (s1 ++ s2)%string = (String.length s1 + String.length s2)%nat.
Proof.
  induction s1 as [|c s1 IH]; cbn [append String.length]; [reflexivity|].
  rewrite IH. reflexivity.
Qed.

Lemma sprintf_pixel_shape c :
  channels_ok c ->
  String.length (sprintf_pixel c) = 7%nat
  /\ all_chars is_frame_char (sprintf_pixel c) = true.
Proof.
  intros Hc. rewrite (sprintf_pixel_RRGGBB c Hc).
  destruct (RRGGBB_six_hex c Hc) as [Hlen Hhex].
  split.
  - rewrite string_length_app, Hlen. reflexivity.
  - rewrite all_chars_app.
    rewrite (all_chars_weaken is_hex_char is_frame_char _); [reflexivity | | exact Hhex].
    intros a Ha. unfold is_frame_char. rewrite Ha. reflexivity.
Qed.

Lemma concat_cells_shape (cells : list string) :
  Forall (fun s => String.length s = 7%nat
                   /\ all_chars is_frame_char s = true) cells ->
  String.length (concat_strings cells) = (7 * List.length cells)%nat
  /\ all_chars is_frame_char (concat_strings cells) = true.
Proof.
  induction 1 as [|s cells [Hlen Hch] _ [IHlen IHch]];
    cbn [concat_strings List.length].
  - split; reflexivity.
  - rewrite string_length_app, all_chars_app, Hlen, Hch, IHlen, IHch.
    split; [lia | reflexivity].
Qed.

(** X7. The text [sprintf] writes for one pixel, with its terminating NUL,
    fills [buf] exactly: seven characters and the NUL in the eight bytes,
    so that the write never runs past the array. *)
Theorem sprintf_pixel_fits_buf c :
  channels_ok c -> (String.length (sprintf_pixel c) + 1)%nat = buf_size.
Proof.
  intros Hc. destruct (sprintf_pixel_shape c Hc) as [Hlen _].
  rewrite Hlen. reflexivity.
Qed.

Lemma sprintf_pixel_fits_buf_witness :
  (String.length (sprintf_pixel MatrixColors.ORANGE) + 1)%nat = 8%nat.
Proof.
  apply (sprintf_pixel_fits_buf MatrixColors.ORANGE).
  vm_compute. intuition discriminate.
Defined.

(** X8. For a buffer that holds the panel, what [sendFrameData] prints
    after [FRAME:] is 7 * W * H characters long and consists of hexadecimal
    digits and commas only; in particular the function ends the frame with
    a comma and prints no line terminator. *)
Theorem sendFrameData_body_shape cfg leds port :
  0 <= MATRIX_WIDTH cfg -> 0 <= MATRIX_HEIGHT cfg ->
  NUM_LEDS cfg <= Z.of_nat (List.length leds) ->
  Forall channels_ok leds ->
  exists body,
    sendFrameData cfg leds port = Some (port ++ "FRAME:" ++ body)%string
    /\ Z.of_nat (String.length body) = 7 * NUM_LEDS cfg
    /\ all_chars is_frame_char body = true.
Proof.
  intros HW HH Hlen Hall.
  exists (concat_strings (frame_cells cfg leds)).
  split; [apply sendFrameData_cells; intros _ _; exact Hlen|].
  assert (Hcells : Forall (fun s => String.length s = 7%nat
                                    /\ all_chars is_frame_char s = true)
                          (frame_cells cfg leds)).
  { unfold frame_cells. apply Forall_forall. intros s Hs.
    apply in_map_iff in Hs. destruct Hs as [p [<- _]].
    apply sprintf_pixel_shape, pixel_at_channels_ok, Hall. }
  destruct (concat_cells_shape _ Hcells) as [Hl Hc].
  split; [|exact Hc].
  rewrite Hl. unfold frame_cells.
  rewrite length_map, length_logical_order. unfold NUM_LEDS. nia.
Qed.

Lemma sendFrameData_body_shape_witness :
  exists body,
    sendFrameData (mkBoardConfig 2 1 0 0 0 0)
      [MatrixColors.CYAN; MatrixColors.PURPLE] EmptyString
    = Some ("" ++ "FRAME:" ++ body)%string
    /\ Z.of_nat (String.length body) = 7 * 2
    /\ all_chars is_frame_char body = true.
Proof.
  apply (sendFrameData_body_shape (mkBoardConfig 2 1 0 0 0 0)
           [MatrixColors.CYAN; MatrixColors.PURPLE] EmptyString).
  - simpl. lia.
  - simpl. lia.
  - unfold NUM_LEDS. simpl. lia.
  - repeat (apply Forall_cons; [vm_compute; intuition discriminate|]).
    apply Forall_nil.
Defined.

(** X9. On a panel that [uint8_t] coordinates cover, [sendFrameData] reads
    every one of the W*H entries of the buffer: it completes without a read
    outside the buffer exactly when the buffer holds at least [NUM_LEDS]
    pixels. *)
Theorem sendFrameData_needs_whole_buffer cfg leds port :
  geometry_ok cfg ->
  sendFrameData cfg leds port <> None
  <-> NUM_LEDS cfg <= Z.of_nat (List.length leds).
Proof.
  intros Hg. split.
  - intros Hsome.
    destruct (Z.le_gt_cases (NUM_LEDS cfg) (Z.of_nat (List.length leds)))
      as [Hle | Hgt]; [exact Hle|].
    exfalso. apply Hsome. clear Hsome.
    pose proof Hg as [[HW _] _].
    set (i := Z.of_nat (List.length leds)) in *.
    assert (Hi : 0 <= i < NUM_LEDS cfg) by lia.
    pose proof (YX_in_grid cfg i HW Hi) as Hin.
    pose proof (grid_index_YX cfg i HW) as Hidx.
    rewrite <- (XY_grid_index cfg _ _ Hg Hin) in Hidx.
    destruct (YX cfg i) as [x0 y0]. cbn [fst snd] in Hin, Hidx.
    destruct Hin as [Hx0 Hy0].
    unfold sendFrameData, for_int.
    apply (for_from_fails _ _ 0 _ y0); [lia|].
    intros p.
    apply (for_from_fails _ _ 0 _ x0); [lia|].
    intros q. rewrite Hidx. unfold read_led.
    assert ((i <? 0) = false) as -> by lia.
    assert (nth_error leds (Z.to_nat i) = None) as ->; [|reflexivity].
    apply nth_error_None. lia.
  - intros Hle. rewrite sendFrameData_cells by (intros _ _; exact Hle).
    discriminate.
Qed.

Lemma sendFrameData_needs_whole_buffer_witness :
  sendFrameData header (repeat MatrixColors.RED 63) EmptyString <> None
  <-> NUM_LEDS header <= Z.of_nat (List.length (repeat MatrixColors.RED 63)).
Proof.
  apply (sendFrameData_needs_whole_buffer header).
  unfold geometry_ok; simpl; lia.
Defined.

(** X10. [sendFrameData] never looks at the buffer beyond its first W*H
    pixels: what follows them does not change what is printed. *)
Theorem sendFrameData_ignores_tail cfg leds extra port :
  NUM_LEDS cfg <= Z.of_nat (List.length leds) ->
  sendFrameData cfg (leds ++ extra) port = sendFrameData cfg leds port.
Proof.
  intros Hlen.
  rewrite !sendFrameData_cells
    by (intros _ _; try rewrite length_app; lia).
  assert (E : frame_cells cfg (leds ++ extra) = frame_cells cfg leds);
    [|rewrite E; reflexivity].
  unfold frame_cells.
  apply map_ext_in. intros [x y] Hin. f_equal.
  apply in_logical_order in Hin. destruct Hin as [Hx Hy].
  pose proof (XY_index_range cfg x y ltac:(lia) ltac:(lia)) as Hidx.
  unfold pixel_at. cbn [fst snd]. apply app_nth1. lia.
Qed.

Lemma sendFrameData_ignores_tail_witness :
  sendFrameData (mkBoardConfig 2 1 1 1 0 0)
    ([MatrixColors.CYAN; MatrixColors.PURPLE] ++ [MatrixColors.WHITE])
    EmptyString
  = sendFrameData (mkBoardConfig 2 1 1 1 0 0)
      [MatrixColors.CYAN; MatrixColors.PURPLE] EmptyString.
Proof.
  apply (sendFrameData_ignores_tail (mkBoardConfig 2 1 1 1 0 0)
           [MatrixColors.CYAN; MatrixColors.PURPLE] [MatrixColors.WHITE]
           EmptyString).
  unfold NUM_LEDS. simpl. lia.
Defined.

(** X11. When the width or the height is zero (or negative) no loop body
    runs to a read: [sendFrameData] prints the prefix [FRAME:] and nothing
    else, whatever the buffer, an empty one included. *)
Theorem sendFrameData_empty_panel cfg leds port :
  MATRIX_WIDTH cfg <= 0 \/ MATRIX_HEIGHT cfg <= 0 ->
  sendFrameData cfg leds port = Some (port ++ "FRAME:")%string.
Proof.
  intros Hdeg.
  rewrite sendFrameData_cells by lia.
  unfold frame_cells. rewrite (logical_order_empty cfg Hdeg).
  cbn [map concat_strings]. rewrite string_app_empty. reflexivity.
Qed.

Lemma sendFrameData_empty_panel_witness :
  sendFrameData (mkBoardConfig 0 8 1 0 0 0) [] "log:"%string
  = Some "log:FRAME:"%string.
Proof.
  apply (sendFrameData_empty_panel (mkBoardConfig 0 8 1 0 0 0) [] "log:"%string).
  left. simpl. lia.
Defined.

(** ** The frame of the header's build is the buffer itself *)

Lemma skipn_nth_cons {A : Type} (d : A) :
  forall n (l : list A),
    (n < List.length l)%nat -> skipn n l = nth n l d :: skipn (S n) l.
Proof.
  induction n as [|n IH]; intros [|a l] Hn; cbn [List.length] in Hn;
    try lia.
  - reflexivity.
  - cbn [skipn nth]. rewrite (IH l) by lia. reflexivity.
Qed.

Lemma firstn_plus {A : Type} :
  forall n m (l : list A),
    firstn (n + m) l = (firstn n l ++ firstn m (skipn n l))%list.
Proof.
  induction n as [|n IH]; intros m [|a l]; cbn [Nat.add firstn skipn app].
  - reflexivity.
  - reflexivity.
  - rewrite firstn_nil. reflexivity.
  - rewrite IH. reflexivity.
Qed.

Lemma map_rows {A : Type} (f : Z * Z -> A) (xs ys : list Z) :
  map f (flat_map (fun y => map (fun x => (x, y)) xs) ys)
  = flat_map (fun y => map (fun x => f (x, y)) xs) ys.
Proof.
  induction ys as [|y ys IH]; cbn [flat_map map]; [reflexivity|].
  rewrite map_app, map_map, IH. reflexivity.
Qed.

Section Slices.

Context {A : Type} (leds : list A) (d : A).

Lemma row_is_slice (f : Z -> A) (base : Z) (count : nat) :
  forall x0,
    0 <= base -> 0 <= x0 ->
    (Z.to_nat (base + x0) + count <= List.length leds)%nat ->
    (forall x, x0 <= x < x0 + Z.of_nat count ->
               f x = nth (Z.to_nat (base + x)) leds d) ->
    map f (upto_from count x0)
    = firstn count (skipn (Z.to_nat (base + x0)) leds).
Proof.
  induction count as [|count IH]; intros x0 Hb Hx0 Hlen Hf.
  - reflexivity.
  - cbn [upto_from map].
    rewrite (skipn_nth_cons d (Z.to_nat (base + x0))) by lia.
    cbn [firstn]. rewrite (Hf x0) by lia. f_equal.
    rewrite (IH (x0 + 1)); [| lia | lia | lia | intros x Hx; apply Hf; lia].
    replace (Z.to_nat (base + (x0 + 1))) with (S (Z.to_nat (base + x0))) by lia.
    reflexivity.
Qed.

Lemma rows_are_slices (f : Z * Z -> A) (W : Z) (rows : nat) :
  0 < W ->
  forall y0,
    0 <= y0 ->
    (Z.to_nat (y0 * W) + rows * Z.to_nat W <= List.length leds)%nat ->
    (forall x y, 0 <= x < W -> y0 <= y < y0 + Z.of_nat rows ->
                 f (x, y) = nth (Z.to_nat (y * W + x)) leds d) ->
    flat_map (fun y => map (fun x => f (x, y)) (upto_from (Z.to_nat W) 0))
             (upto_from rows y0)
    = firstn (rows * Z.to_nat W) (skipn (Z.to_nat (y0 * W)) leds).
Proof.
  intros HW. induction rows as [|rows IH]; intros y0 Hy0 Hlen Hf.
  - reflexivity.
  - cbn [upto_from flat_map Nat.mul]. cbn [Nat.mul] in Hlen.
    assert (Hpos : 0 <= y0 * W) by nia.
    rewrite (row_is_slice (fun x => f (x, y0)) (y0 * W));
      [| lia | lia | lia | intros x Hx; apply Hf; lia].
    rewrite (IH (y0 + 1));
      [| lia | nia | intros x y Hx Hy; apply Hf; lia].
    rewrite firstn_plus, skipn_skipn.
    replace (Z.to_nat (y0 * W + 0)) with (Z.to_nat (y0 * W)) by lia.
    replace (Z.to_nat ((y0 + 1) * W))
      with (Z.to_nat W + Z.to_nat (y0 * W))%nat by nia.
    reflexivity.
Qed.

End Slices.

(** X12. In a build with the row-major wiring and no flip, as the header
    is, the logical order is the physical order: [sendFrameData] prints the
    first W*H pixels of the buffer one after the other, in the order in
    which the buffer holds them. *)
Theorem sendFrameData_physical_order cfg leds port :
  geometry_ok cfg ->
  pp_if (PANEL_WIRING_SERPENTINE cfg) = false ->
  pp_if (PANEL_FLIP_X cfg) = false ->
  pp_if (PANEL_FLIP_Y cfg) = false ->
  NUM_LEDS cfg <= Z.of_nat (List.length leds) ->
  sendFrameData cfg leds port
  = Some (port ++ "FRAME:"
            ++ concat_strings
                 (map sprintf_pixel (firstn (Z.to_nat (NUM_LEDS cfg)) leds)))%string.
Proof.
  intros Hg Hs Hfx Hfy Hlen.
  rewrite sendFrameData_cells by (intros _ _; exact Hlen).
  assert (E : map (pixel_at cfg leds) (logical_order cfg)
              = firstn (Z.to_nat (NUM_LEDS cfg)) leds).
  { pose proof Hg as [[HW HW'] [HH HH']].
    unfold logical_order, upto. rewrite map_rows.
    rewrite (rows_are_slices leds MatrixColors.BLACK (pixel_at cfg leds)
               (MATRIX_WIDTH cfg) (Z.to_nat (MATRIX_HEIGHT cfg)) HW 0).
    - unfold NUM_LEDS. cbn [Z.mul Z.to_nat skipn].
      f_equal. nia.
    - lia.
    - unfold NUM_LEDS in Hlen. nia.
    - intros x y Hx Hy. unfold pixel_at. cbn [fst snd].
      rewrite XY_grid_index by (assumption || (unfold in_grid; lia)).
      unfold grid_index, unflip. rewrite Hs, Hfx, Hfy. reflexivity. }
  unfold frame_cells. rewrite <- E, map_map. reflexivity.
Qed.

Lemma sendFrameData_physical_order_witness :
  sendFrameData (mkBoardConfig 2 2 0 0 0 0)
    [MatrixColors.RED; MatrixColors.GREEN; MatrixColors.BLUE;
     MatrixColors.WHITE; MatrixColors.ORANGE] EmptyString
  = Some "FRAME:3C0000,003C00,00003C,3C3C3C,"%string.
Proof.
  apply (sendFrameData_physical_order (mkBoardConfig 2 2 0 0 0 0)
           [MatrixColors.RED; MatrixColors.GREEN; MatrixColors.BLUE;
            MatrixColors.WHITE; MatrixColors.ORANGE] EmptyString).
  - unfold geometry_ok; simpl; lia.
  - reflexivity.
  - reflexivity.
  - reflexivity.
  - unfold NUM_LEDS. simpl. lia.
Defined.

(** ** The frame determines the buffer *)

Lemma string_app_inv_head (p s1 s2 : string) :
  (p ++ s1)%string = (p ++ s2)%string -> s1 = s2.
Proof.
  induction p as [|c p IH]; cbn [append]; intros E.
  - exact E.
  - injection E as E. apply IH, E.
Qed.

Lemma string_app_same_length :
  forall s1 s2 t1 t2 : string,
    String.length s1 = String.length s2 ->
    (s1 ++ t1)%string = (s2 ++ t2)%string -> s1 = s2 /\ t1 = t2.
Proof.
  induction s1 as [|c s1 IH]; intros [|c2 s2] t1 t2 Hlen E;
    cbn [String.length] in Hlen; try discriminate.
  - split; [reflexivity | exact E].
  - cbn [append] in E. injection E as Ec E.
    destruct (IH s2 t1 t2) as [Es Et]; [lia | exact E |].
    subst. split; reflexivity.
Qed.

Lemma concat_cells_inj {P : Type} (f1 f2 : P -> string) (ps : list P) :
  (forall p, String.length (f1 p) = String.length (f2 p)) ->
  concat_strings (map f1 ps) = concat_strings (map f2 ps) ->
  forall p, In p ps -> f1 p = f2 p.
Proof.
  intros Hlen. induction ps as [|q ps IH]; cbn [map concat_strings];
    intros E p Hin.
  - destruct Hin.
  - apply string_app_same_length in E; [|apply Hlen].
    destruct E as [Eq Erest].
    destruct Hin as [<- | Hin]; [exact Eq | apply IH; assumption].
Qed.

Lemma hex_value_digit d : 0 <= d < 16 -> hex_value (hex_digit d) = d.
Proof.
  intros Hd.
  replace d with (Z.of_nat (Z.to_nat d)) by lia.
  assert (Hn : (Z.to_nat d < 16)%nat) by lia.
  revert Hn. generalize (Z.to_nat d). intros n Hn.
  do 16 (destruct n as [|n]; [reflexivity|]). lia.
Qed.

Lemma two_hex_inj v1 v2 :
  is_uint8 v1 -> is_uint8 v2 -> two_hex v1 = two_hex v2 -> v1 = v2.
Proof.
  unfold is_uint8, two_hex. intros H1 H2 E.
  injection E as Ehi Elo.
  apply (f_equal hex_value) in Ehi, Elo.
  assert (D : forall v, 0 <= v < 256 -> 0 <= v / 16 < 16).
  { intros v Hv. split; [apply Z.div_pos; lia | apply Z.div_lt_upper_bound; lia]. }
  assert (M : forall v, 0 <= v mod 16 < 16)
    by (intros v; apply Z.mod_pos_bound; lia).
  rewrite !hex_value_digit in Ehi, Elo by auto.
  rewrite (Z.div_mod v1 16), (Z.div_mod v2 16) by lia.
  rewrite Ehi, Elo. reflexivity.
Qed.

Lemma sprintf_pixel_inj c1 c2 :
  channels_ok c1 -> channels_ok c2 ->
  sprintf_pixel c1 = sprintf_pixel c2 -> c1 = c2.
Proof.
  intros H1 H2 E.
  rewrite (sprintf_pixel_RRGGBB c1 H1), (sprintf_pixel_RRGGBB c2 H2) in E.
  apply string_app_same_length in E; [|reflexivity].
  destruct E as [E _]. unfold RRGGBB in E.
  apply string_app_same_length in E; [|reflexivity].
  destruct E as [Er E].
  apply string_app_same_length in E; [|reflexivity].
  destruct E as [Eg Eb].
  destruct H1 as (Hr1 & Hg1 & Hb1). destruct H2 as (Hr2 & Hg2 & Hb2).
  apply two_hex_inj in Er, Eg, Eb; try assumption.
  destruct c1, c2. cbn [r g b] in *. subst. reflexivity.
Qed.

(** X13. The frame determines the buffer: on a panel that [uint8_t]
    coordinates cover, two buffers of exactly W*H pixels for which
    [sendFrameData] prints the same text are the same buffer.  Every pixel
    is printed, and nothing of its three channels is lost in the text. *)
Theorem sendFrameData_injective cfg leds1 leds2 port :
  geometry_ok cfg ->
  Z.of_nat (List.length leds1) = NUM_LEDS cfg ->
  Z.of_nat (List.length leds2) = NUM_LEDS cfg ->
  Forall channels_ok leds1 -> Forall channels_ok leds2 ->
  sendFrameData cfg leds1 port = sendFrameData cfg leds2 port ->
  leds1 = leds2.
Proof.
  intros Hg Hl1 Hl2 Hc1 Hc2 E.
  rewrite !sendFrameData_cells in E by lia.
  injection E as E.
  apply string_app_inv_head in E.
  apply (string_app_inv_head "FRAME:") in E.
  unfold frame_cells in E.
  pose proof (concat_cells_inj _ _ _
                (fun p => eq_trans
                   (proj1 (sprintf_pixel_shape _ (pixel_at_channels_ok cfg leds1 p Hc1)))
                   (eq_sym (proj1 (sprintf_pixel_shape _
                                     (pixel_at_channels_ok cfg leds2 p Hc2)))))
                E) as Hcells.
  pose proof Hg as [[HW _] _].
  apply (nth_ext _ _ MatrixColors.BLACK MatrixColors.BLACK); [lia|].
  intros n Hn.
  assert (Hi : 0 <= Z.of_nat n < NUM_LEDS cfg) by lia.
  pose proof (YX_in_grid cfg _ HW Hi) as Hin.
  pose proof (grid_index_YX cfg (Z.of_nat n) HW) as Hidx.
  rewrite <- (XY_grid_index cfg _ _ Hg Hin) in Hidx.
  destruct (YX cfg (Z.of_nat n)) as [x y]. cbn [fst snd] in Hin, Hidx.
  specialize (Hcells (x, y) (proj2 (in_logical_order cfg x y) Hin)).
  apply sprintf_pixel_inj in Hcells;
    [| apply pixel_at_channels_ok, Hc1 | apply pixel_at_channels_ok, Hc2].
  unfold pixel_at in Hcells. cbn [fst snd] in Hcells.
  rewrite Hidx, Nat2Z.id in Hcells. exact Hcells.
Qed.

Lemma sendFrameData_injective_witness :
  [MatrixColors.CYAN; MatrixColors.PURPLE]
  = [CRGB_rgb 256 60 316; CRGB_rgb 30 0 60].
Proof.
  apply (sendFrameData_injective (mkBoardConfig 2 1 1 1 0 0)
           [MatrixColors.CYAN; MatrixColors.PURPLE]
           [CRGB_rgb 256 60 316; CRGB_rgb 30 0 60] EmptyString).
  - unfold geometry_ok; simpl; lia.
  - reflexivity.
  - reflexivity.
  - repeat (apply Forall_cons; [vm_compute; intuition discriminate|]).
    apply Forall_nil.
  - repeat (apply Forall_cons; [vm_compute; intuition discriminate|]).
    apply Forall_nil.
  - reflexivity.
Defined.

(** ** Checks on concrete inputs *)

Example XY_header_0_0 : XY header 0 0 = 0.
Proof. reflexivity. Qed.

Example XY_header_200_9 : XY header 200 9 = 63.
Proof. reflexivity. Qed.

Example XY_serpentine_row_1 :
  map (fun x => XY (panel8x8 1 0 0) x 1) (upto 8) = [15; 14; 13; 12; 11; 10; 9; 8].
Proof. reflexivity. Qed.

Example XY_header_row_1 :
  map (fun x => XY header x 1) (upto 8) = [8; 9; 10; 11; 12; 13; 14; 15].
Proof. reflexivity. Qed.

Example YX_serpentine_15 : YX (panel8x8 1 0 0) 15 = (0, 1).
Proof. reflexivity. Qed.

Example sprintf_02X_60 : sprintf_02X 60 = "3C"%string.
Proof. reflexivity. Qed.

Example sprintf_02X_5 : sprintf_02X 5 = "05"%string.
Proof. reflexivity. Qed.

Example sendFrameData_short_buffer :
  sendFrameData header [MatrixColors.RED] EmptyString = None.
Proof. reflexivity. Qed.

(** Each of the 64 indices is hit by exactly one of the 64 positions, in
    each of the eight builds. *)
Example every_index_hit_once_8x8 :
  forallb (fun cfg => forallb (fun i => Nat.eqb (hits cfg i) 1) (upto 64))
          builds8x8 = true.
Proof. vm_compute. reflexivity. Qed.
